(** * Buildcat build criteria ([buildcat/build.py])

    A shallow embedding of the four build criteria of Buildcat
    ([Always], [Never], [Nonexistent], [Outdated]) and of the one method
    they implement, [outdated(self, environment, inputs, outputs)].

    The criteria only ever talk to their collaborators through two
    method calls on a target, [node.exists(environment)] and
    [node.timestamp(environment)].  The target classes live in another
    module, so a target is modelled by what a Python object can do when
    one of its methods is called: return a value or raise, and leave the
    world (file system, connection, the target's own attributes) as it
    was or change it.  Every call is recorded in a trace, which is what
    lets us speak about evaluation order and short-circuiting. *)

From Stdlib Require Import List ZArith Bool String Lia Permutation.
Import ListNotations.
Open Scope Z_scope.

(** ** Outcomes of a Python call *)

(** A call either returns a value or raises; the exception is kept as
    its message. *)
Inductive outcome (A : Type) : Type :=
| Returned (a : A)
| Raised (e : string).
Arguments Returned {A} a.
Arguments Raised {A} e.

(** How the body of a [for] loop hands control back: it falls through
    to the next iteration, or it executes [return v]. *)
Inductive flow : Type :=
| Continue
| Return (v : bool).

(** The four concrete classes derived from [Criteria].  None of them
    has an attribute: [__init__] only calls the (empty) base
    initialiser. *)
Inductive Criteria : Type :=
| Always
| Never
| Nonexistent
| Outdated.

Section Model.

(** The environment is passed through to the targets unexamined; the
    world is whatever the targets' methods read and may write. *)
Variables (Environment World : Type).

(** A target, as seen from [build.py]: the two methods called on it.
    A timestamp is [None] or an instant, taken here as an integer. *)
Record Target : Type := {
  exists_ : Environment -> World -> outcome bool * World;
  timestamp : Environment -> World -> outcome (option Z) * World
}.

(** One entry of the trace per method call on a target. *)
Inductive Query : Type :=
| QExists (node : Target)
| QTimestamp (node : Target).

Record State : Type := {
  world : World;
  trace : list Query
}.

(** *** The monad of state and exceptions *)

Definition M (A : Type) : Type := State -> outcome A * State.

Definition ret {A : Type} (a : A) : M A :=
  fun s => (Returned a, s).

Definition bind {A B : Type} (m : M A) (k : A -> M B) : M B :=
  fun s =>
    match m s with
    | (Returned a, s') => k a s'
    | (Raised e, s') => (Raised e, s')
    end.

(** [node.exists(environment)] *)
Definition call_exists (node : Target) (environment : Environment) : M bool :=
  fun s =>
    let (r, w) := exists_ node environment (world s) in
    (r, {| world := w; trace := trace s ++ [QExists node] |}).

(** [node.timestamp(environment)] *)
Definition call_timestamp (node : Target) (environment : Environment)
  : M (option Z) :=
  fun s =>
    let (r, w) := timestamp node environment (world s) in
    (r, {| world := w; trace := trace s ++ [QTimestamp node] |}).

(** [for x in xs: body], where the body may [return]. *)
Fixpoint for_each {A : Type} (xs : list A) (body : A -> M flow) : M flow :=
  match xs with
  | [] => ret Continue
  | x :: rest =>
      bind (body x) (fun f =>
        match f with
        | Return v => ret (Return v)
        | Continue => for_each rest body
        end)
  end.

(** A function body made of a loop followed by [return v]. *)
Definition then_return (loop : M flow) (v : bool) : M bool :=
  bind loop (fun f =>
    match f with
    | Return r => ret r
    | Continue => ret v
    end).

(** *** The [outdated] methods *)

(** [Always.outdated]: [return True]. *)
Definition Always_outdated (environment : Environment)
           (inputs outputs : list Target) : M bool :=
  ret true.

(** [Never.outdated]: [return False]. *)
Definition Never_outdated (environment : Environment)
           (inputs outputs : list Target) : M bool :=
  ret false.

(** [Nonexistent.outdated]:
<<
      for node in outputs:
          if not node.exists(environment):
              return True
      return False
>> *)
Definition Nonexistent_body (environment : Environment) (node : Target)
  : M flow :=
  bind (call_exists node environment) (fun e =>
    if negb e then ret (Return true) else ret Continue).

Definition Nonexistent_outdated (environment : Environment)
           (inputs outputs : list Target) : M bool :=
  then_return (for_each outputs (Nonexistent_body environment)) false.

(** [Outdated.outdated], inner loop.  The timestamp read on each
    iteration is that of [node], the output of the enclosing loop;
    the loop variable [inode] is bound and not used:
<<
          for inode in inputs:
              input_timestamp = node.timestamp(environment)
              if input_timestamp is None:
                  return True
              if input_timestamp > output_timestamp:
                  return True
>> *)
Definition Outdated_inner (environment : Environment) (node : Target)
           (output_timestamp : Z) (inode : Target) : M flow :=
  bind (call_timestamp node environment) (fun input_timestamp =>
    match input_timestamp with
    | None => ret (Return true)
    | Some t =>
        if t >? output_timestamp then ret (Return true) else ret Continue
    end).

(** [Outdated.outdated], body of the outer loop:
<<
          if not node.exists(environment):
              return True
          output_timestamp = node.timestamp(environment)
          if output_timestamp is None:
              return True
          for inode in inputs: ...
>> *)
Definition Outdated_body (environment : Environment) (inputs : list Target)
           (node : Target) : M flow :=
  bind (call_exists node environment) (fun e =>
    if negb e then ret (Return true)
    else
      bind (call_timestamp node environment) (fun output_timestamp =>
        match output_timestamp with
        | None => ret (Return true)
        | Some t => for_each inputs (Outdated_inner environment node t)
        end)).

Definition Outdated_outdated (environment : Environment)
           (inputs outputs : list Target) : M bool :=
  then_return (for_each outputs (Outdated_body environment inputs)) false.

(** Method dispatch on the class of [self]. *)
Definition outdated (self : Criteria) (environment : Environment)
           (inputs outputs : list Target) : M bool :=
  match self with
  | Always => Always_outdated environment inputs outputs
  | Never => Never_outdated environment inputs outputs
  | Nonexistent => Nonexistent_outdated environment inputs outputs
  | Outdated => Outdated_outdated environment inputs outputs
  end.

(** *** What a target answers in a given world *)

(** The value [node.exists(environment)] returns in world [w]; a call
    that raises counts as "does not exist". *)
Definition present (environment : Environment) (w : World) (node : Target)
  : bool :=
  match fst (exists_ node environment w) with
  | Returned b => b
  | Raised _ => false
  end.

(** The value [node.timestamp(environment)] returns in world [w]; a
    call that raises counts as "unknown". *)
Definition stamp (environment : Environment) (w : World) (node : Target)
  : option Z :=
  match fst (timestamp node environment w) with
  | Returned t => t
  | Raised _ => None
  end.

(** [exists] is a pure query in world [w]: it returns and leaves the
    world alone. *)
Definition exists_pure (environment : Environment) (w : World)
           (node : Target) : Prop :=
  exists b, exists_ node environment w = (Returned b, w).

(** [timestamp] is a pure query in world [w]. *)
Definition timestamp_pure (environment : Environment) (w : World)
           (node : Target) : Prop :=
  exists t, timestamp node environment w = (Returned t, w).

(** A pure target: both of its queries are pure. *)
Definition pure_target (environment : Environment) (w : World)
           (node : Target) : Prop :=
  exists_pure environment w node /\ timestamp_pure environment w node.

(** A target whose queries leave world [w] as it is, whether they
    return or raise. *)
Definition read_only (environment : Environment) (w : World)
           (node : Target) : Prop :=
  snd (exists_ node environment w) = w /\
  snd (timestamp node environment w) = w.

(** A computation that, started in world [w], ends in world [w] with an
    outcome that does not depend on what was queried before. *)
Definition stable {A : Type} (w : World) (m : M A) : Prop :=
  forall tr,
    world (snd (m {| world := w; trace := tr |})) = w /\
    forall tr',
      fst (m {| world := w; trace := tr' |}) =
      fst (m {| world := w; trace := tr |}).

(** An output that [Outdated.outdated] sees as out of date on its
    own: it does not exist, or its timestamp is [None]. *)
Definition unknown (environment : Environment) (w : World) (node : Target)
  : bool :=
  negb (present environment w node)
  || match stamp environment w node with
     | None => true
     | Some _ => false
     end.

(** The function [Outdated.outdated] is compared with: it looks at
    the outputs alone and answers whether one of them does not exist
    or has no timestamp. *)
Definition some_output_unknown (environment : Environment) (w : World)
           (outputs : list Target) : bool :=
  existsb (unknown environment w) outputs.

(** What each criterion answers when the outputs are pure. *)
Definition verdict (self : Criteria) (environment : Environment)
           (w : World) (outputs : list Target) : bool :=
  match self with
  | Always => true
  | Never => false
  | Nonexistent => negb (forallb (present environment w) outputs)
  | Outdated => existsb (unknown environment w) outputs
  end.

(** The queries [Outdated.outdated] makes on an output that exists
    and has a timestamp: [exists], [timestamp], and [timestamp] once
    more per input. *)
Definition Outdated_queries (inputs : list Target) (node : Target)
  : list Query :=
  QExists node :: QTimestamp node :: map (fun _ => QTimestamp node) inputs.

End Model.

Arguments exists_ {Environment World} _ _ _.
Arguments timestamp {Environment World} _ _ _.
Arguments QExists {Environment World} node.
Arguments QTimestamp {Environment World} node.
Arguments world {Environment World} _.
Arguments trace {Environment World} _.
Arguments Build_State {Environment World} _ _.
Arguments Build_Target {Environment World} _ _.
Arguments ret {Environment World A} a _.
Arguments bind {Environment World A B} m k _.
Arguments call_exists {Environment World} node environment _.
Arguments call_timestamp {Environment World} node environment _.
Arguments for_each {Environment World A} xs body _.
Arguments then_return {Environment World} loop v _.
Arguments Always_outdated {Environment World} environment inputs outputs _.
Arguments Never_outdated {Environment World} environment inputs outputs _.
Arguments Nonexistent_body {Environment World} environment node _.
Arguments Nonexistent_outdated {Environment World} environment inputs outputs _.
Arguments Outdated_inner {Environment World} environment node output_timestamp inode _.
Arguments Outdated_body {Environment World} environment inputs node _.
Arguments Outdated_outdated {Environment World} environment inputs outputs _.
Arguments outdated {Environment World} self environment inputs outputs _.
Arguments present {Environment World} environment w node.
Arguments stamp {Environment World} environment w node.
Arguments exists_pure {Environment World} environment w node.
Arguments timestamp_pure {Environment World} environment w node.
Arguments pure_target {Environment World} environment w node.
Arguments unknown {Environment World} environment w node.
Arguments Outdated_queries {Environment World} inputs node.
Arguments read_only {Environment World} environment w node.
Arguments stable {Environment World A} w m.
Arguments verdict {Environment World} self environment w outputs.
Arguments some_output_unknown {Environment World} environment w outputs.

(** ** Concrete targets for the scenarios *)

(** A file whose existence and modification time are fixed: both
    queries answer from the record and touch nothing.  Environment and
    world carry no information here. *)
Definition file (present_ : bool) (mtime : option Z) : Target unit unit :=
  {| exists_ := fun _ w => (Returned present_, w);
     timestamp := fun _ w => (Returned mtime, w) |}.

(** A target none of whose queries can be answered. *)
Definition unreachable : Target unit unit :=
  {| exists_ := fun _ w => (Raised "lookup failure"%string, w);
     timestamp := fun _ w => (Raised "lookup failure"%string, w) |}.

(** The initial state: nothing queried yet. *)
Definition start : State unit unit := {| world := tt; trace := [] |}.

(** The targets of the scenarios. *)
Definition output_100 : Target unit unit := file true (Some 100).
Definition input_50 : Target unit unit := file true (Some 50).
Definition input_100 : Target unit unit := file true (Some 100).
Definition input_150 : Target unit unit := file true (Some 150).
Definition missing_output : Target unit unit := file false None.
Definition output_no_stamp : Target unit unit := file true None.
Definition input_no_stamp : Target unit unit := file true None.

(** A target that changes the world: its timestamp is the current value
    of a counter, which every reading advances. *)
Definition ticking : Target unit Z :=
  {| exists_ := fun _ w => (Returned true, w);
     timestamp := fun _ w => (Returned (Some w), w + 1) |}.

(** A target that exists and whose timestamp cannot be read. *)
Definition stamp_unreachable : Target unit unit :=
  {| exists_ := fun _ w => (Returned true, w);
     timestamp := fun _ w => (Raised "lookup failure"%string, w) |}.

(** A target in the world of [ticking] none of whose queries can be
    answered. *)
Definition unreachable_later : Target unit Z :=
  {| exists_ := fun _ w => (Raised "lookup failure"%string, w);
     timestamp := fun _ w => (Raised "lookup failure"%string, w) |}.

(** ** Observing the trace *)

(** The target a query was made on. *)
Definition query_target {Environment World : Type}
           (q : Query Environment World) : Target Environment World :=
  match q with
  | QExists node => node
  | QTimestamp node => node
  end.

(** ** [__repr__] *)

(** The string each class returns from [__repr__]. *)
Definition repr (self : Criteria) : string :=
  match self with
  | Always => "buildcat.build.Always()"
  | Never => "buildcat.build.Never()"
  | Nonexistent => "buildcat.build.Nonexistent()"
  | Outdated => "buildcat.build.Outdated()"
  end.

(** * Properties *)

Section Properties.

Variables (Environment World : Type).

Local Abbreviation Target := (Target Environment World).
Local Abbreviation State := (State Environment World).
Local Abbreviation Query := (Query Environment World).

Implicit Types (environment : Environment) (w : World) (node : Target).
Implicit Types (inputs outputs : list Target) (s : State) (tr : list Query).

(** ** Loops *)

(** A loop over [xs ++ ys] runs the loop over [xs] and, unless that
    returned, the loop over [ys]. *)
Lemma for_each_app {A : Type} (xs ys : list A)
      (body : A -> M Environment World flow) s :
  for_each (xs ++ ys) body s =
  bind (for_each xs body) (fun f =>
    match f with
    | Return v => ret (Return v)
    | Continue => for_each ys body
    end) s.
Proof.
  revert s; induction xs as [|x xs IH]; intros s; simpl.
  - reflexivity.
  - unfold bind. destruct (body x s) as [[[|v]|e] s1]; simpl.
    + rewrite IH; reflexivity.
    + reflexivity.
    + reflexivity.
Qed.

(** ** Pure queries *)

Lemma call_exists_pure environment w node tr :
  exists_pure environment w node ->
  call_exists node environment {| world := w; trace := tr |} =
  (Returned (present environment w node),
   {| world := w; trace := tr ++ [QExists node] |}).
Proof.
  intros [b Hb]. unfold call_exists, present; simpl.
  rewrite Hb; reflexivity.
Qed.

Lemma call_timestamp_pure environment w node tr :
  timestamp_pure environment w node ->
  call_timestamp node environment {| world := w; trace := tr |} =
  (Returned (stamp environment w node),
   {| world := w; trace := tr ++ [QTimestamp node] |}).
Proof.
  intros [t Ht]. unfold call_timestamp, stamp; simpl.
  rewrite Ht; reflexivity.
Qed.

Lemma pure_target_exists environment w node :
  pure_target environment w node -> exists_pure environment w node.
Proof. intros [H _]; exact H. Qed.

(** ** [Nonexistent] *)

Lemma Nonexistent_body_pure environment w node tr :
  exists_pure environment w node ->
  Nonexistent_body environment node {| world := w; trace := tr |} =
  (Returned (if present environment w node then Continue else Return true),
   {| world := w; trace := tr ++ [QExists node] |}).
Proof.
  intros H. unfold Nonexistent_body, bind.
  rewrite (call_exists_pure _ _ _ _ H).
  destruct (present environment w node); reflexivity.
Qed.

(** Over outputs that all exist the loop of [Nonexistent.outdated]
    falls through, having asked each of them in turn. *)
Lemma Nonexistent_loop_present environment w outputs tr :
  Forall (exists_pure environment w) outputs ->
  Forall (fun node => present environment w node = true) outputs ->
  for_each outputs (Nonexistent_body environment)
           {| world := w; trace := tr |} =
  (Returned Continue,
   {| world := w; trace := tr ++ map QExists outputs |}).
Proof.
  intros Hp Hx; revert tr.
  induction outputs as [|node rest IH]; intros tr; simpl.
  - rewrite app_nil_r; reflexivity.
  - inversion Hp as [|? ? Hp1 Hp2]; inversion Hx as [|? ? Hx1 Hx2]; subst.
    unfold bind. rewrite (Nonexistent_body_pure _ _ _ _ Hp1), Hx1.
    rewrite (IH Hp2 Hx2). rewrite <- app_assoc; reflexivity.
Qed.

(** The value and the final world of [Nonexistent.outdated] over
    outputs whose [exists] is pure. *)
Lemma Nonexistent_loop_value environment w outputs tr :
  Forall (exists_pure environment w) outputs ->
  exists tr',
    for_each outputs (Nonexistent_body environment)
             {| world := w; trace := tr |} =
    (Returned (if forallb (present environment w) outputs
               then Continue else Return true),
     {| world := w; trace := tr' |}).
Proof.
  intros Hp; revert tr.
  induction Hp as [|node rest Hp1 Hp2 IH]; intros tr; simpl.
  - eexists; reflexivity.
  - unfold bind. rewrite (Nonexistent_body_pure _ _ _ _ Hp1).
    destruct (present environment w node); simpl.
    + apply IH.
    + eexists; reflexivity.
Qed.

Lemma Nonexistent_value environment w inputs outputs tr :
  Forall (exists_pure environment w) outputs ->
  exists tr',
    Nonexistent_outdated environment inputs outputs
                         {| world := w; trace := tr |} =
    (Returned (negb (forallb (present environment w) outputs)),
     {| world := w; trace := tr' |}).
Proof.
  intros Hp. unfold Nonexistent_outdated, then_return, bind.
  destruct (Nonexistent_loop_value environment w outputs tr Hp) as [tr' ->].
  exists tr'. destruct (forallb _ _); reflexivity.
Qed.

(** [Nonexistent.outdated] reads nothing of a target but the answers
    of [exists]: value and final world are the same for any two
    output sequences that agree on them, whatever the inputs and
    whatever was queried before. *)
Lemma Nonexistent_loop_exists_only environment outputs outputs' w tr tr' :
  Forall2 (fun a b => forall e v, exists_ a e v = exists_ b e v)
          outputs outputs' ->
  let r := for_each outputs (Nonexistent_body environment)
                    {| world := w; trace := tr |} in
  let r' := for_each outputs' (Nonexistent_body environment)
                     {| world := w; trace := tr' |} in
  fst r = fst r' /\ world (snd r) = world (snd r').
Proof.
  intros H; revert w tr tr'.
  induction H as [|a b resta restb Hab Hrest IH]; intros w tr tr'; simpl.
  - split; reflexivity.
  - unfold bind, Nonexistent_body, bind, call_exists; simpl.
    rewrite (Hab environment w).
    destruct (exists_ b environment w) as [[[|]|e] w1]; simpl.
    + apply IH.
    + split; reflexivity.
    + split; reflexivity.
Qed.

(** ** [Outdated] *)

(** One iteration of the inner loop over a pure output: it reads the
    output's own timestamp again, finds the value it is compared
    with, and falls through. *)
Lemma Outdated_inner_pure environment w node t inode tr :
  timestamp_pure environment w node ->
  stamp environment w node = Some t ->
  Outdated_inner environment node t inode {| world := w; trace := tr |} =
  (Returned Continue,
   {| world := w; trace := tr ++ [QTimestamp node] |}).
Proof.
  intros Hp Ht. unfold Outdated_inner, bind.
  rewrite (call_timestamp_pure _ _ _ _ Hp), Ht.
  rewrite Z.gtb_ltb, Z.ltb_irrefl; reflexivity.
Qed.

Lemma Outdated_inner_loop_pure environment w node t inputs tr :
  timestamp_pure environment w node ->
  stamp environment w node = Some t ->
  for_each inputs (Outdated_inner environment node t)
           {| world := w; trace := tr |} =
  (Returned Continue,
   {| world := w;
      trace := tr ++ map (fun _ => QTimestamp node) inputs |}).
Proof.
  intros Hp Ht; revert tr.
  induction inputs as [|inode rest IH]; intros tr; simpl.
  - rewrite app_nil_r; reflexivity.
  - unfold bind. rewrite (Outdated_inner_pure _ _ _ _ _ _ Hp Ht).
    rewrite IH, <- app_assoc; reflexivity.
Qed.

Lemma Outdated_body_missing environment w inputs node tr :
  exists_pure environment w node ->
  present environment w node = false ->
  Outdated_body environment inputs node {| world := w; trace := tr |} =
  (Returned (Return true),
   {| world := w; trace := tr ++ [QExists node] |}).
Proof.
  intros Hp Hx. unfold Outdated_body, bind.
  rewrite (call_exists_pure _ _ _ _ Hp), Hx; reflexivity.
Qed.

Lemma Outdated_body_no_stamp environment w inputs node tr :
  pure_target environment w node ->
  present environment w node = true ->
  stamp environment w node = None ->
  Outdated_body environment inputs node {| world := w; trace := tr |} =
  (Returned (Return true),
   {| world := w; trace := tr ++ [QExists node; QTimestamp node] |}).
Proof.
  intros [Hpe Hpt] Hx Ht. unfold Outdated_body, bind.
  rewrite (call_exists_pure _ _ _ _ Hpe), Hx; simpl.
  rewrite (call_timestamp_pure _ _ _ _ Hpt), Ht.
  rewrite <- app_assoc; reflexivity.
Qed.

Lemma Outdated_body_known environment w inputs node tr :
  pure_target environment w node ->
  unknown environment w node = false ->
  Outdated_body environment inputs node {| world := w; trace := tr |} =
  (Returned Continue,
   {| world := w; trace := tr ++ Outdated_queries inputs node |}).
Proof.
  intros [Hpe Hpt] Hu. unfold unknown in Hu.
  apply orb_false_elim in Hu as [Hx Ht].
  apply negb_false_iff in Hx.
  destruct (stamp environment w node) as [t|] eqn:Hs; [|discriminate].
  unfold Outdated_body, bind.
  rewrite (call_exists_pure _ _ _ _ Hpe), Hx; simpl.
  rewrite (call_timestamp_pure _ _ _ _ Hpt), Hs.
  rewrite (Outdated_inner_loop_pure _ _ _ _ _ _ Hpt Hs).
  unfold Outdated_queries. rewrite <- !app_assoc; reflexivity.
Qed.

Lemma Outdated_body_unknown environment w inputs node tr :
  pure_target environment w node ->
  unknown environment w node = true ->
  exists tr',
    Outdated_body environment inputs node {| world := w; trace := tr |} =
    (Returned (Return true), {| world := w; trace := tr' |}).
Proof.
  intros Hp Hu. unfold unknown in Hu.
  destruct (present environment w node) eqn:Hx.
  - destruct (stamp environment w node) as [t|] eqn:Hs; [discriminate|].
    eexists. apply Outdated_body_no_stamp; assumption.
  - eexists. apply Outdated_body_missing; [apply Hp | assumption].
Qed.

(** Over outputs that all exist and have a timestamp the outer loop
    falls through, having asked each of them in turn. *)
Lemma Outdated_loop_known environment w inputs outputs tr :
  Forall (pure_target environment w) outputs ->
  Forall (fun node => unknown environment w node = false) outputs ->
  for_each outputs (Outdated_body environment inputs)
           {| world := w; trace := tr |} =
  (Returned Continue,
   {| world := w;
      trace := tr ++ flat_map (Outdated_queries inputs) outputs |}).
Proof.
  intros Hp Hk; revert tr.
  induction outputs as [|node rest IH]; intros tr.
  - simpl. rewrite app_nil_r; reflexivity.
  - inversion Hp as [|? ? Hp1 Hp2]; inversion Hk as [|? ? Hk1 Hk2]; subst.
    cbn [for_each flat_map]. unfold bind.
    rewrite (Outdated_body_known _ _ _ _ _ Hp1 Hk1).
    rewrite (IH Hp2 Hk2), <- app_assoc; reflexivity.
Qed.

(** The value and the final world of the outer loop over pure
    outputs. *)
Lemma Outdated_loop_value environment w inputs outputs tr :
  Forall (pure_target environment w) outputs ->
  exists tr',
    for_each outputs (Outdated_body environment inputs)
             {| world := w; trace := tr |} =
    (Returned (if existsb (unknown environment w) outputs
               then Return true else Continue),
     {| world := w; trace := tr' |}).
Proof.
  intros Hp; revert tr.
  induction Hp as [|node rest Hp1 Hp2 IH]; intros tr.
  - eexists; reflexivity.
  - cbn [for_each existsb]. unfold bind.
    destruct (unknown environment w node) eqn:Hu.
    + destruct (Outdated_body_unknown _ _ inputs _ tr Hp1 Hu) as [tr' ->].
      exists tr'; reflexivity.
    + rewrite (Outdated_body_known _ _ _ _ _ Hp1 Hu). apply IH.
Qed.

Lemma Outdated_value environment w inputs outputs tr :
  Forall (pure_target environment w) outputs ->
  exists tr',
    Outdated_outdated environment inputs outputs
                      {| world := w; trace := tr |} =
    (Returned (existsb (unknown environment w) outputs),
     {| world := w; trace := tr' |}).
Proof.
  intros Hp. unfold Outdated_outdated, then_return, bind.
  destruct (Outdated_loop_value environment w inputs outputs tr Hp)
    as [tr' ->].
  exists tr'. destruct (existsb _ _); reflexivity.
Qed.

(** What [existsb unknown] and [forallb present] say, in words. *)
Lemma some_unknown_iff environment w outputs :
  existsb (unknown environment w) outputs = true <->
  exists node, In node outputs /\
               (present environment w node = false \/
                stamp environment w node = None).
Proof.
  rewrite existsb_exists. split; intros [node [Hin H]]; exists node;
    (split; [exact Hin|]); unfold unknown in *.
  - apply orb_true_iff in H as [H|H].
    + left. apply negb_true_iff; exact H.
    + right. destruct (stamp environment w node); [discriminate|reflexivity].
  - destruct H as [H|H]; rewrite H; [reflexivity | apply orb_true_r].
Qed.

Lemma some_missing_iff environment w outputs :
  negb (forallb (present environment w) outputs) = true <->
  exists node, In node outputs /\ present environment w node = false.
Proof.
  rewrite negb_true_iff. split.
  - intros H. induction outputs as [|node rest IH]; [discriminate|].
    simpl in H. apply andb_false_iff in H as [H|H].
    + exists node; split; [left; reflexivity | exact H].
    + destruct (IH H) as [n [Hin Hn]]. exists n; split; [right|]; assumption.
  - intros [node [Hin Hn]]. destruct (forallb _ _) eqn:Hall; [|reflexivity].
    rewrite forallb_forall in Hall. rewrite (Hall _ Hin) in Hn; discriminate.
Qed.

(** Over pure outputs every criterion returns its verdict and leaves
    the world as it found it. *)
Lemma outdated_value self environment w inputs outputs tr :
  Forall (pure_target environment w) outputs ->
  exists tr',
    outdated self environment inputs outputs {| world := w; trace := tr |} =
    (Returned (verdict self environment w outputs),
     {| world := w; trace := tr' |}).
Proof.
  intros Hp. destruct self; simpl.
  - eexists; reflexivity.
  - eexists; reflexivity.
  - apply Nonexistent_value.
    eapply Forall_impl; [|exact Hp]. exact (pure_target_exists environment w).
  - apply Outdated_value; exact Hp.
Qed.

(** ** Read-only targets *)

Lemma pure_target_read_only environment w node :
  pure_target environment w node -> read_only environment w node.
Proof.
  intros [[b Hb] [t Ht]]. unfold read_only. rewrite Hb, Ht. split; reflexivity.
Qed.

Lemma stable_ret {A : Type} w (a : A) :
  stable w (ret (Environment := Environment) a).
Proof. intros tr; split; reflexivity. Qed.

Lemma stable_bind {A B : Type} w (m : M Environment World A)
      (k : A -> M Environment World B) :
  stable w m -> (forall a, stable w (k a)) -> stable w (bind m k).
Proof.
  intros Hm Hk tr. unfold bind.
  destruct (Hm tr) as [Hw Hv].
  destruct (m {| world := w; trace := tr |}) as [[a|e] [w1 tr1]] eqn:E;
    simpl in Hw; subst w1.
  - split; [apply Hk|]. intros tr'.
    specialize (Hv tr'). destruct (Hm tr') as [Hw' _].
    destruct (m {| world := w; trace := tr' |}) as [[a'|e'] [w2 tr2]];
      simpl in Hv, Hw'; subst w2; [|discriminate].
    injection Hv as ->. apply Hk.
  - split; [reflexivity|]. intros tr'.
    specialize (Hv tr').
    destruct (m {| world := w; trace := tr' |}) as [[a'|e'] [w2 tr2]];
      simpl in Hv; [discriminate|].
    injection Hv as ->. reflexivity.
Qed.

Lemma stable_call_exists environment w node :
  read_only environment w node -> stable w (call_exists node environment).
Proof.
  intros [He _] tr. unfold call_exists; simpl.
  destruct (exists_ node environment w) as [r w1]; simpl in He; subst w1.
  split; reflexivity.
Qed.

Lemma stable_call_timestamp environment w node :
  read_only environment w node -> stable w (call_timestamp node environment).
Proof.
  intros [_ Ht] tr. unfold call_timestamp; simpl.
  destruct (timestamp node environment w) as [r w1]; simpl in Ht; subst w1.
  split; reflexivity.
Qed.

Lemma stable_for_each {A : Type} w (xs : list A)
      (body : A -> M Environment World flow) :
  (forall x, In x xs -> stable w (body x)) -> stable w (for_each xs body).
Proof.
  induction xs as [|x rest IH]; intros Hbody; simpl.
  - apply stable_ret.
  - apply stable_bind.
    + apply Hbody; left; reflexivity.
    + intros [|v]; [|apply stable_ret].
      apply IH. intros y Hy. apply Hbody; right; exact Hy.
Qed.

Lemma stable_then_return w (loop : M Environment World flow) v :
  stable w loop -> stable w (then_return loop v).
Proof.
  intros H. apply stable_bind; [exact H|].
  intros [|r]; apply stable_ret.
Qed.

Lemma stable_Nonexistent_body environment w node :
  read_only environment w node -> stable w (Nonexistent_body environment node).
Proof.
  intros H. apply stable_bind; [apply stable_call_exists; exact H|].
  intros e. destruct (negb e); apply stable_ret.
Qed.

Lemma stable_Outdated_body environment w inputs node :
  read_only environment w node ->
  stable w (Outdated_body environment inputs node).
Proof.
  intros H. apply stable_bind; [apply stable_call_exists; exact H|].
  intros e. destruct (negb e); [apply stable_ret|].
  apply stable_bind; [apply stable_call_timestamp; exact H|].
  intros [t|]; [|apply stable_ret].
  apply stable_for_each. intros inode _.
  apply stable_bind; [apply stable_call_timestamp; exact H|].
  intros [t'|]; [|apply stable_ret].
  destruct (t' >? t); apply stable_ret.
Qed.

(** Over read-only outputs every criterion is stable. *)
Lemma stable_outdated self environment w inputs outputs :
  Forall (read_only environment w) outputs ->
  stable w (outdated self environment inputs outputs).
Proof.
  intros Hr. rewrite Forall_forall in Hr. destruct self; simpl.
  - apply stable_ret.
  - apply stable_ret.
  - apply stable_then_return, stable_for_each.
    intros node Hin. apply stable_Nonexistent_body, Hr, Hin.
  - apply stable_then_return, stable_for_each.
    intros node Hin. apply stable_Outdated_body, Hr, Hin.
Qed.

(** ** The claims *)

(** C7. [Always.outdated] returns [True] for every environment, every
    input sequence and every output sequence; it queries nothing and
    changes nothing. *)
Theorem Always_outdated_true environment inputs outputs s :
  outdated Always environment inputs outputs s = (Returned true, s).
Proof. reflexivity. Qed.

(** C8. [Never.outdated] returns [False] for every environment, every
    input sequence and every output sequence; it queries nothing and
    changes nothing. *)
Theorem Never_outdated_false environment inputs outputs s :
  outdated Never environment inputs outputs s = (Returned false, s).
Proof. reflexivity. Qed.

(** C6. With [outputs = []] no criterion raises, whatever the inputs
    are (even inputs whose queries would raise): each returns a
    value and leaves the state untouched, and [Nonexistent] and
    [Outdated] return [False]. *)
Theorem outdated_no_outputs self environment inputs s :
  (exists v, outdated self environment inputs [] s = (Returned v, s)) /\
  outdated Nonexistent environment inputs [] s = (Returned false, s) /\
  outdated Outdated environment inputs [] s = (Returned false, s).
Proof.
  split; [|split; reflexivity].
  destruct self; eexists; reflexivity.
Qed.

(** C4. Over outputs whose [exists] is a pure query,
    [Nonexistent.outdated] returns [True] exactly when some output
    does not exist.  Its result depends neither on the inputs nor on
    any timestamp: replacing the inputs by any others, and the
    outputs by targets that answer [exists] alike, gives the same
    result. *)
Theorem Nonexistent_outdated_iff_missing environment inputs outputs s :
  Forall (exists_pure environment (world s)) outputs ->
  (exists v,
      fst (Nonexistent_outdated environment inputs outputs s) = Returned v /\
      (v = true <->
       exists node, In node outputs /\
                    present environment (world s) node = false)) /\
  (forall inputs' outputs',
      Forall2 (fun a b => forall e v, exists_ a e v = exists_ b e v)
              outputs outputs' ->
      fst (Nonexistent_outdated environment inputs' outputs' s) =
      fst (Nonexistent_outdated environment inputs outputs s)).
Proof.
  intros Hp. destruct s as [w tr]; simpl in *. split.
  - destruct (Nonexistent_value environment w inputs outputs tr Hp)
      as [tr' ->].
    eexists; split; [reflexivity|]. apply some_missing_iff.
  - intros inputs' outputs' Hsame.
    unfold Nonexistent_outdated, then_return, bind.
    destruct (Nonexistent_loop_exists_only environment _ _ w tr tr Hsame)
      as [Hv _]; simpl in Hv.
    destruct (for_each outputs _ _) as [r1 s1];
      destruct (for_each outputs' _ _) as [r2 s2]; simpl in Hv; subst r2.
    destruct r1 as [[|v]|e]; reflexivity.
Qed.

(** C3. Over pure outputs, [Outdated.outdated] is the function that
    answers whether some output does not exist or has no timestamp:
    the inner loop reads the timestamp of the output again, never
    that of an input, so the inputs have no bearing on the result. *)
Theorem Outdated_reads_outputs_only environment inputs outputs s :
  Forall (pure_target environment (world s)) outputs ->
  fst (Outdated_outdated environment inputs outputs s) =
  Returned (some_output_unknown environment (world s) outputs) /\
  (forall inputs',
      fst (Outdated_outdated environment inputs' outputs s) =
      fst (Outdated_outdated environment inputs outputs s)).
Proof.
  intros Hp. destruct s as [w tr]; simpl in *.
  destruct (Outdated_value environment w inputs outputs tr Hp) as [tr1 H1].
  split.
  - rewrite H1; reflexivity.
  - intros inputs'.
    destruct (Outdated_value environment w inputs' outputs tr Hp)
      as [tr2 H2].
    rewrite H1, H2; reflexivity.
Qed.

(** C5. With [inputs = []] and pure outputs, [Outdated.outdated]
    returns [True] exactly when some output does not exist or has no
    timestamp. *)
Theorem Outdated_no_inputs environment outputs s :
  Forall (pure_target environment (world s)) outputs ->
  exists v,
    fst (Outdated_outdated environment [] outputs s) = Returned v /\
    (v = true <->
     exists node, In node outputs /\
                  (present environment (world s) node = false \/
                   stamp environment (world s) node = None)).
Proof.
  intros Hp. destruct s as [w tr]; simpl in *.
  destruct (Outdated_value environment w [] outputs tr Hp) as [tr' ->].
  eexists; split; [reflexivity|]. apply some_unknown_iff.
Qed.

(** X12. Over pure outputs, [Outdated.outdated] returns [True] as
    soon as some output does not exist or has no timestamp, whatever
    the inputs are; with no outputs it returns [False] whatever the
    inputs are. *)
Theorem Outdated_unknown_output environment inputs outputs s :
  Forall (pure_target environment (world s)) outputs ->
  (exists node, In node outputs /\
                (present environment (world s) node = false \/
                 stamp environment (world s) node = None)) ->
  fst (Outdated_outdated environment inputs outputs s) = Returned true /\
  Outdated_outdated environment inputs [] s = (Returned false, s).
Proof.
  intros Hp Hu. split; [|reflexivity].
  destruct s as [w tr]; simpl in *.
  destruct (Outdated_value environment w inputs outputs tr Hp) as [tr' ->].
  apply some_unknown_iff in Hu. simpl; rewrite Hu; reflexivity.
Qed.

(** C9. Each criterion is a function of its arguments and of what
    the targets answer.  Over outputs whose queries do not change the
    world, a call leaves the world as it was, and a second call with
    the same arguments, made after the first, has the same outcome as
    the first (the same value, or the same exception) and again leaves
    the world as it was.  The criterion itself has no attribute that a
    call could change. *)
Theorem outdated_deterministic self environment inputs outputs s :
  Forall (read_only environment (world s)) outputs ->
  let first := outdated self environment inputs outputs s in
  let second := outdated self environment inputs outputs (snd first) in
  fst second = fst first /\
  world (snd first) = world s /\ world (snd second) = world s.
Proof.
  intros Hr first second. destruct s as [w tr]; simpl in *.
  pose proof (stable_outdated self environment w inputs outputs Hr) as Hst.
  destruct (Hst tr) as [Hw1 Hv]. fold first in Hw1.
  subst second. destruct first as [r [w1 tr1]] eqn:E; simpl in *; subst w1.
  destruct (Hst tr1) as [Hw2 _].
  rewrite (Hv tr1). unfold first in E. rewrite E.
  repeat split. exact Hw2.
Qed.

(** Short-circuiting over pure targets, with the trace written out:
    when the outputs [pre] are pure and up to date and [node] is pure
    and out of date, the call on [pre ++ node :: post] returns [True]
    and its trace lists the queries on [pre], in order, then those on
    [node], and nothing else.  The statement for arbitrary targets
    comes at the end of the section. *)
Theorem outdated_short_circuit environment inputs pre node post s :
  Forall (pure_target environment (world s)) pre ->
  pure_target environment (world s) node ->
  (Forall (fun n => present environment (world s) n = true) pre ->
   present environment (world s) node = false ->
   Nonexistent_outdated environment inputs (pre ++ node :: post) s =
   (Returned true,
    {| world := world s;
       trace := trace s ++ map QExists pre ++ [QExists node] |})) /\
  (Forall (fun n => unknown environment (world s) n = false) pre ->
   unknown environment (world s) node = true ->
   Outdated_outdated environment inputs (pre ++ node :: post) s =
   (Returned true,
    {| world := world s;
       trace := trace s ++ flat_map (Outdated_queries inputs) pre ++
                (if present environment (world s) node
                 then [QExists node; QTimestamp node]
                 else [QExists node]) |})).
Proof.
  intros Hpre Hnode. destruct s as [w tr]; simpl in *. split.
  - intros Hx Hm.
    unfold Nonexistent_outdated, then_return. unfold bind at 1.
    rewrite for_each_app. unfold bind at 1.
    rewrite Nonexistent_loop_present;
      [|eapply Forall_impl; [|exact Hpre];
        exact (pure_target_exists environment w) | exact Hx].
    cbn [for_each]. unfold bind at 1.
    rewrite (Nonexistent_body_pure _ _ _ _ (proj1 Hnode)), Hm.
    cbn [ret]. rewrite <- app_assoc; reflexivity.
  - intros Hk Hu.
    unfold Outdated_outdated, then_return. unfold bind at 1.
    rewrite for_each_app. unfold bind at 1.
    rewrite (Outdated_loop_known _ _ _ _ _ Hpre Hk).
    cbn [for_each]. unfold bind at 1.
    destruct (present environment w node) eqn:Hx.
    + unfold unknown in Hu; rewrite Hx in Hu; simpl in Hu.
      destruct (stamp environment w node) as [t|] eqn:Hs; [discriminate|].
      rewrite (Outdated_body_no_stamp _ _ _ _ _ Hnode Hx Hs).
      cbn [ret]. rewrite <- app_assoc; reflexivity.
    + rewrite (Outdated_body_missing _ _ _ _ _ (proj1 Hnode) Hx).
      cbn [ret]. rewrite <- app_assoc; reflexivity.
Qed.

(** ** What the loops query *)

(** The loop of [Nonexistent.outdated] asks [exists] of the outputs
    one after the other, up to some point, and asks nothing else. *)
Lemma Nonexistent_loop_footprint environment outputs s :
  exists k,
    (k <= List.length outputs)%nat /\
    trace (snd (for_each outputs (Nonexistent_body environment) s)) =
    trace s ++ map QExists (firstn k outputs).
Proof.
  revert s; induction outputs as [|node rest IH]; intros s.
  - exists 0%nat. simpl. rewrite app_nil_r. split; [lia|reflexivity].
  - cbn [for_each]. unfold bind at 1. unfold Nonexistent_body at 1.
    unfold bind at 1. unfold call_exists at 1.
    destruct (exists_ node environment (world s)) as [[[|]|e] w1]; cbn.
    + match goal with |- context [for_each rest _ ?s1] =>
        destruct (IH s1) as [k [Hk Ht]] end.
      exists (S k). split; [simpl; lia|].
      rewrite Ht. cbn. rewrite <- app_assoc. reflexivity.
    + exists 1%nat. split; [simpl; lia|]. destruct rest; reflexivity.
    + exists 1%nat. split; [simpl; lia|]. destruct rest; reflexivity.
Qed.

(** The inner loop of [Outdated.outdated] reads the timestamp of the
    output, at most once per input, and asks nothing else. *)
Lemma Outdated_inner_loop_footprint environment node t inputs s :
  exists k,
    (k <= List.length inputs)%nat /\
    trace (snd (for_each inputs (Outdated_inner environment node t) s)) =
    trace s ++ repeat (QTimestamp node) k.
Proof.
  revert s; induction inputs as [|inode rest IH]; intros s.
  - exists 0%nat. simpl. rewrite app_nil_r. split; [lia|reflexivity].
  - cbn [for_each]. unfold bind at 1. unfold Outdated_inner at 1.
    unfold bind at 1. unfold call_timestamp at 1.
    destruct (timestamp node environment (world s)) as [[[t'|]|e] w1]; cbn.
    + destruct (t' >? t); cbn.
      * exists 1%nat. split; [simpl; lia|reflexivity].
      * match goal with |- context [for_each rest _ ?s1] =>
          destruct (IH s1) as [k [Hk Ht]] end.
        exists (S k). split; [simpl; lia|].
        rewrite Ht. cbn. rewrite <- app_assoc. reflexivity.
    + exists 1%nat. split; [simpl; lia|reflexivity].
    + exists 1%nat. split; [simpl; lia|reflexivity].
Qed.

(** The body of the outer loop queries the output it is given, at most
    [2 + len(inputs)] times, and nothing else. *)
Lemma Outdated_body_footprint environment inputs node s :
  exists added,
    trace (snd (Outdated_body environment inputs node s)) = trace s ++ added /\
    Forall (fun q => query_target q = node) added /\
    (List.length added <= 2 + List.length inputs)%nat.
Proof.
  unfold Outdated_body. unfold bind at 1. unfold call_exists at 1.
  destruct (exists_ node environment (world s)) as [[[|]|e] w1]; cbn.
  - unfold bind at 1. unfold call_timestamp at 1. cbn.
    destruct (timestamp node environment w1) as [[[t|]|e] w2]; cbn.
    + match goal with |- context [for_each inputs _ ?s1] =>
        destruct (Outdated_inner_loop_footprint environment node t inputs s1)
          as [k [Hk Ht]] end.
      rewrite Ht. cbn. rewrite <- !app_assoc. eexists. split; [reflexivity|].
      split.
      * repeat constructor. apply Forall_forall. intros q Hq.
        apply repeat_spec in Hq. subst q. reflexivity.
      * cbn. rewrite repeat_length. lia.
    + rewrite <- app_assoc. eexists. split; [reflexivity|].
      split; [repeat constructor | simpl; lia].
    + rewrite <- app_assoc. eexists. split; [reflexivity|].
      split; [repeat constructor | simpl; lia].
  - eexists. split; [reflexivity|]. split; [repeat constructor | simpl; lia].
  - eexists. split; [reflexivity|]. split; [repeat constructor | simpl; lia].
Qed.

Lemma Outdated_loop_footprint environment inputs outputs s :
  exists added,
    trace (snd (for_each outputs (Outdated_body environment inputs) s)) =
    trace s ++ added /\
    Forall (fun q => In (query_target q) outputs) added /\
    (List.length added <= List.length outputs * (2 + List.length inputs))%nat.
Proof.
  revert s; induction outputs as [|node rest IH]; intros s.
  - exists []. simpl. rewrite app_nil_r. repeat split; [constructor|lia].
  - cbn [for_each]. unfold bind at 1.
    destruct (Outdated_body_footprint environment inputs node s)
      as [a1 [Ht1 [Hq1 Hl1]]].
    assert (Hin1 : Forall (fun q => In (query_target q) (node :: rest)) a1).
    { eapply Forall_impl; [|exact Hq1]. intros q ->. left; reflexivity. }
    destruct (Outdated_body environment inputs node s) as [[[|v]|e] s1];
      cbn in Ht1 |- *.
    + destruct (IH s1) as [a2 [Ht2 [Hq2 Hl2]]].
      exists (a1 ++ a2). rewrite Ht2, Ht1, <- app_assoc.
      split; [reflexivity|]. split.
      * apply Forall_app. split; [exact Hin1|].
        eapply Forall_impl; [|exact Hq2]. intros q Hq. right; exact Hq.
      * rewrite length_app. simpl. lia.
    + exists a1. split; [exact Ht1|]. split; [exact Hin1 | simpl; lia].
    + exists a1. split; [exact Ht1|]. split; [exact Hin1 | simpl; lia].
Qed.

Lemma then_return_trace (loop : M Environment World flow) v s :
  trace (snd (then_return loop v s)) = trace (snd (loop s)).
Proof.
  unfold then_return, bind. destruct (loop s) as [[[|r]|e] s1]; reflexivity.
Qed.

(** X1. Whatever the targets do, [Outdated.outdated] only queries
    targets of [outputs] (no input is ever queried), and it makes at
    most [len(outputs) * (2 + len(inputs))] queries. *)
Theorem Outdated_footprint environment inputs outputs s :
  exists added,
    trace (snd (Outdated_outdated environment inputs outputs s)) =
    trace s ++ added /\
    Forall (fun q => In (query_target q) outputs) added /\
    (List.length added <= List.length outputs * (2 + List.length inputs))%nat.
Proof.
  unfold Outdated_outdated. rewrite then_return_trace.
  apply Outdated_loop_footprint.
Qed.

(** X2. Whatever the targets do, the queries of [Nonexistent.outdated]
    are [exists] on the first [k] outputs, in order, for some
    [k <= len(outputs)]: it never reads a timestamp and never queries
    an input. *)
Theorem Nonexistent_footprint environment inputs outputs s :
  exists k,
    (k <= List.length outputs)%nat /\
    trace (snd (Nonexistent_outdated environment inputs outputs s)) =
    trace s ++ map QExists (firstn k outputs).
Proof.
  unfold Nonexistent_outdated. rewrite then_return_trace.
  apply Nonexistent_loop_footprint.
Qed.

(** ** Splitting the outputs *)

(** A loop whose body never executes [return False] never returns
    [False] from inside. *)
Lemma for_each_never_false {A : Type} (xs : list A)
      (body : A -> M Environment World flow) :
  (forall x s0, fst (body x s0) <> Returned (Return false)) ->
  forall s, fst (for_each xs body s) <> Returned (Return false).
Proof.
  intros Hbody. induction xs as [|x rest IH]; intros s; simpl.
  - discriminate.
  - unfold bind. specialize (Hbody x s).
    destruct (body x s) as [[[|[|]]|e] s1]; simpl in *.
    + apply IH.
    + discriminate.
    + congruence.
    + discriminate.
Qed.

Lemma Nonexistent_body_never_false environment node s :
  fst (Nonexistent_body environment node s) <> Returned (Return false).
Proof.
  unfold Nonexistent_body, bind, call_exists.
  destruct (exists_ node environment (world s)) as [[[|]|e] w1];
    simpl; discriminate.
Qed.

Lemma Outdated_inner_never_false environment node t inode s :
  fst (Outdated_inner environment node t inode s) <> Returned (Return false).
Proof.
  unfold Outdated_inner, bind, call_timestamp.
  destruct (timestamp node environment (world s)) as [[[t'|]|e] w1]; simpl;
    try discriminate.
  destruct (t' >? t); simpl; discriminate.
Qed.

Lemma Outdated_body_never_false environment inputs node s :
  fst (Outdated_body environment inputs node s) <> Returned (Return false).
Proof.
  unfold Outdated_body. unfold bind at 1. unfold call_exists.
  destruct (exists_ node environment (world s)) as [[[|]|e] w1]; simpl;
    try discriminate.
  unfold bind at 1. unfold call_timestamp. simpl.
  destruct (timestamp node environment w1) as [[[t|]|e] w2]; simpl;
    try discriminate.
  apply for_each_never_false. intros inode s0.
  apply Outdated_inner_never_false.
Qed.

Lemma then_return_app {A : Type} (xs ys : list A)
      (body : A -> M Environment World flow) s :
  (forall x s0, fst (body x s0) <> Returned (Return false)) ->
  then_return (for_each (xs ++ ys) body) false s =
  match then_return (for_each xs body) false s with
  | (Returned true, s') => (Returned true, s')
  | (Returned false, s') => then_return (for_each ys body) false s'
  | (Raised e, s') => (Raised e, s')
  end.
Proof.
  intros Hbody. unfold then_return, bind.
  rewrite for_each_app. unfold bind.
  pose proof (for_each_never_false xs body Hbody s) as Hnf.
  destruct (for_each xs body s) as [[[|[|]]|e] s1]; simpl in *;
    try reflexivity.
  congruence.
Qed.

(** X3. A call on [outputs1 ++ outputs2] is the call on [outputs1]
    followed, when that returns [False], by the call on [outputs2]
    from the state the first one left; a [True] or an exception from
    the first part is the result, and the second part is not run. *)
Theorem outdated_app self environment inputs outputs1 outputs2 s :
  outdated self environment inputs (outputs1 ++ outputs2) s =
  match outdated self environment inputs outputs1 s with
  | (Returned true, s') => (Returned true, s')
  | (Returned false, s') => outdated self environment inputs outputs2 s'
  | (Raised e, s') => (Raised e, s')
  end.
Proof.
  destruct self; simpl.
  - reflexivity.
  - reflexivity.
  - apply then_return_app. intros node s0.
    apply Nonexistent_body_never_false.
  - apply then_return_app. intros node s0.
    apply Outdated_body_never_false.
Qed.

(** ** Exceptions *)

(** X4. Neither method catches what [exists] raises.  When the outputs
    [pre] are pure and up to date and [exists] raises on [node], the
    call on [pre ++ node :: post] raises the same exception, in the
    world the failed query left, and nothing of [post] is queried. *)
Theorem outdated_exists_raises environment inputs pre node post s e w' :
  Forall (pure_target environment (world s)) pre ->
  exists_ node environment (world s) = (Raised e, w') ->
  (Forall (fun n => present environment (world s) n = true) pre ->
   Nonexistent_outdated environment inputs (pre ++ node :: post) s =
   (Raised e,
    {| world := w';
       trace := trace s ++ map QExists pre ++ [QExists node] |})) /\
  (Forall (fun n => unknown environment (world s) n = false) pre ->
   Outdated_outdated environment inputs (pre ++ node :: post) s =
   (Raised e,
    {| world := w';
       trace := trace s ++ flat_map (Outdated_queries inputs) pre ++
                [QExists node] |})).
Proof.
  intros Hpre Hraise. destruct s as [w tr]; simpl in *. split.
  - intros Hx.
    unfold Nonexistent_outdated, then_return. unfold bind at 1.
    rewrite for_each_app. unfold bind at 1.
    rewrite Nonexistent_loop_present;
      [|eapply Forall_impl; [|exact Hpre];
        exact (pure_target_exists environment w) | exact Hx].
    cbn [for_each]. unfold bind at 1. unfold Nonexistent_body.
    unfold bind at 1. unfold call_exists. cbn [world trace].
    rewrite Hraise. rewrite <- app_assoc. reflexivity.
  - intros Hk.
    unfold Outdated_outdated, then_return. unfold bind at 1.
    rewrite for_each_app. unfold bind at 1.
    rewrite (Outdated_loop_known _ _ _ _ _ Hpre Hk).
    cbn [for_each]. unfold bind at 1. unfold Outdated_body.
    unfold bind at 1. unfold call_exists. cbn [world trace].
    rewrite Hraise. rewrite <- app_assoc. reflexivity.
Qed.

(** X5. An output that exists and whose [timestamp] raises stops
    [Outdated.outdated] with that exception, right after the two
    queries on it; [Nonexistent.outdated], which reads no timestamp,
    goes past it. *)
Theorem Outdated_timestamp_raises environment inputs pre node post s e w' :
  Forall (pure_target environment (world s)) pre ->
  Forall (fun n => unknown environment (world s) n = false) pre ->
  exists_ node environment (world s) = (Returned true, world s) ->
  timestamp node environment (world s) = (Raised e, w') ->
  Outdated_outdated environment inputs (pre ++ node :: post) s =
  (Raised e,
   {| world := w';
      trace := trace s ++ flat_map (Outdated_queries inputs) pre ++
               [QExists node; QTimestamp node] |}) /\
  Nonexistent_outdated environment inputs (pre ++ [node]) s =
  (Returned false,
   {| world := world s;
      trace := trace s ++ map QExists (pre ++ [node]) |}).
Proof.
  intros Hpre Hk Hex Hraise. destruct s as [w tr]; simpl in *. split.
  - unfold Outdated_outdated, then_return. unfold bind at 1.
    rewrite for_each_app. unfold bind at 1.
    rewrite (Outdated_loop_known _ _ _ _ _ Hpre Hk).
    cbn [for_each]. unfold bind at 1. unfold Outdated_body.
    unfold bind at 1. unfold call_exists. cbn [world trace].
    rewrite Hex. cbn. unfold bind at 1. unfold call_timestamp. cbn.
    rewrite Hraise. rewrite <- !app_assoc. reflexivity.
  - unfold Nonexistent_outdated, then_return, bind.
    rewrite Nonexistent_loop_present; [reflexivity | |].
    + apply Forall_app. split.
      * eapply Forall_impl; [|exact Hpre].
        exact (pure_target_exists environment w).
      * repeat constructor. exists true. exact Hex.
    + apply Forall_app. split.
      * eapply Forall_impl; [|exact Hk]. intros n Hn.
        unfold unknown in Hn. apply orb_false_elim in Hn as [Hn _].
        apply negb_false_iff in Hn. exact Hn.
      * repeat constructor. unfold present. rewrite Hex. reflexivity.
Qed.

(** ** The criteria compared *)

(** X6. Over pure outputs [Outdated] asks for a build whenever
    [Nonexistent] does. *)
Theorem Nonexistent_implies_Outdated environment inputs outputs s :
  Forall (pure_target environment (world s)) outputs ->
  fst (Nonexistent_outdated environment inputs outputs s) = Returned true ->
  fst (Outdated_outdated environment inputs outputs s) = Returned true.
Proof.
  intros Hp HN. destruct s as [w tr]; simpl in *.
  destruct (Outdated_value environment w inputs outputs tr Hp) as [tr1 ->].
  destruct (Nonexistent_value environment w inputs outputs tr) as [tr2 H2].
  { eapply Forall_impl; [|exact Hp]. exact (pure_target_exists environment w). }
  rewrite H2 in HN. simpl in *. injection HN as HN.
  apply some_missing_iff in HN. destruct HN as [node [Hin Hm]].
  f_equal. apply some_unknown_iff. exists node. split; [exact Hin|].
  left; exact Hm.
Qed.

(** X7. Over pure outputs that have a timestamp whenever they exist,
    [Outdated] and [Nonexistent] return the same value, whatever the
    inputs are. *)
Theorem Outdated_is_Nonexistent environment inputs outputs s :
  Forall (pure_target environment (world s)) outputs ->
  (forall node, In node outputs ->
                present environment (world s) node = true ->
                stamp environment (world s) node <> None) ->
  fst (Outdated_outdated environment inputs outputs s) =
  fst (Nonexistent_outdated environment inputs outputs s).
Proof.
  intros Hp Hstamp. destruct s as [w tr]; simpl in *.
  destruct (Outdated_value environment w inputs outputs tr Hp) as [tr1 ->].
  destruct (Nonexistent_value environment w inputs outputs tr) as [tr2 ->].
  { eapply Forall_impl; [|exact Hp]. exact (pure_target_exists environment w). }
  simpl. f_equal. clear Hp tr tr1 tr2.
  induction outputs as [|node rest IH]; [reflexivity|].
  cbn [existsb forallb]. rewrite IH.
  - unfold unknown. pose proof (Hstamp node (or_introl eq_refl)) as Hn.
    destruct (present environment w node); simpl.
    + destruct (stamp environment w node); [reflexivity|].
      exfalso. apply Hn; reflexivity.
    + reflexivity.
  - intros n Hin. apply Hstamp. right; exact Hin.
Qed.

Lemma existsb_Permutation {A : Type} (f : A -> bool) (xs ys : list A) :
  Permutation xs ys -> existsb f xs = existsb f ys.
Proof.
  induction 1 as [|x xs ys _ IH|x y xs|xs ys zs _ IH1 _ IH2]; simpl.
  - reflexivity.
  - rewrite IH; reflexivity.
  - destruct (f x), (f y); reflexivity.
  - rewrite IH1; exact IH2.
Qed.

Lemma forallb_Permutation {A : Type} (f : A -> bool) (xs ys : list A) :
  Permutation xs ys -> forallb f xs = forallb f ys.
Proof.
  induction 1 as [|x xs ys _ IH|x y xs|xs ys zs _ IH1 _ IH2]; simpl.
  - reflexivity.
  - rewrite IH; reflexivity.
  - destruct (f x), (f y); reflexivity.
  - rewrite IH1; exact IH2.
Qed.

(** X8. Over pure outputs the order of the outputs has no bearing on
    the value returned, for any of the criteria. *)
Theorem outdated_Permutation self environment inputs outputs outputs' s :
  Forall (pure_target environment (world s)) outputs ->
  Permutation outputs outputs' ->
  fst (outdated self environment inputs outputs' s) =
  fst (outdated self environment inputs outputs s).
Proof.
  intros Hp Hperm. destruct s as [w tr]; simpl in *.
  assert (Hp' : Forall (pure_target environment w) outputs')
    by (eapply Permutation_Forall; eassumption).
  destruct (outdated_value self environment w inputs outputs tr Hp)
    as [tr1 ->].
  destruct (outdated_value self environment w inputs outputs' tr Hp')
    as [tr2 ->].
  simpl. f_equal. destruct self; simpl.
  - reflexivity.
  - reflexivity.
  - f_equal. symmetry. apply forallb_Permutation; exact Hperm.
  - symmetry. apply existsb_Permutation; exact Hperm.
Qed.

(** ** The cost of an up-to-date verdict *)

Lemma Outdated_queries_length inputs outputs :
  List.length (flat_map (Outdated_queries inputs) outputs) =
  (List.length outputs * (2 + List.length inputs))%nat.
Proof.
  induction outputs as [|node rest IH]; [reflexivity|].
  cbn [flat_map]. rewrite length_app, IH. unfold Outdated_queries.
  cbn [List.length]. rewrite length_map. simpl. lia.
Qed.

(** X9. When all outputs are pure, exist and have a timestamp,
    [Outdated.outdated] returns [False] after
    [len(outputs) * (2 + len(inputs))] queries: on each output, in
    order, [exists], [timestamp], and [timestamp] again once per
    input. *)
Theorem Outdated_up_to_date_cost environment inputs outputs s :
  Forall (pure_target environment (world s)) outputs ->
  Forall (fun n => unknown environment (world s) n = false) outputs ->
  Outdated_outdated environment inputs outputs s =
  (Returned false,
   {| world := world s;
      trace := trace s ++ flat_map (Outdated_queries inputs) outputs |}) /\
  List.length (trace (snd (Outdated_outdated environment inputs outputs s))) =
  (List.length (trace s) + List.length outputs * (2 + List.length inputs))%nat.
Proof.
  intros Hp Hk. destruct s as [w tr]; simpl in *.
  assert (H : Outdated_outdated environment inputs outputs
                {| world := w; trace := tr |} =
              (Returned false,
               {| world := w;
                  trace := tr ++ flat_map (Outdated_queries inputs) outputs |})).
  { unfold Outdated_outdated, then_return, bind.
    rewrite (Outdated_loop_known _ _ _ _ _ Hp Hk). reflexivity. }
  split; [exact H|]. rewrite H. cbn [snd trace].
  rewrite length_app, Outdated_queries_length. reflexivity.
Qed.

(** ** The inputs *)

Lemma for_each_ext {A : Type} (xs : list A)
      (body body' : A -> M Environment World flow) s :
  (forall x s0, body x s0 = body' x s0) ->
  for_each xs body s = for_each xs body' s.
Proof.
  intros Hext. revert s; induction xs as [|x rest IH]; intros s; simpl.
  - reflexivity.
  - unfold bind. rewrite Hext.
    destruct (body' x s) as [[[|v]|e] s1]; [apply IH | reflexivity..].
Qed.

(** The inner loop does the same over any two input sequences of the
    same length. *)
Lemma Outdated_inner_loop_count environment node t inputs inputs' s :
  List.length inputs = List.length inputs' ->
  for_each inputs (Outdated_inner environment node t) s =
  for_each inputs' (Outdated_inner environment node t) s.
Proof.
  revert inputs' s; induction inputs as [|inode rest IH];
    intros [|inode' rest'] s Hlen; try discriminate Hlen.
  - reflexivity.
  - cbn [for_each]. unfold bind.
    change (Outdated_inner environment node t inode' s)
      with (Outdated_inner environment node t inode s).
    destruct (Outdated_inner environment node t inode s) as [[[|v]|e] s1];
      [|reflexivity..].
    apply IH. injection Hlen as Hlen; exact Hlen.
Qed.

(** X11. Whatever the targets do, [Outdated.outdated] uses of its
    inputs nothing but their number: two input sequences of the same
    length give the same outcome, the same world and the same
    queries. *)
Theorem Outdated_inputs_count environment inputs inputs' outputs s :
  List.length inputs = List.length inputs' ->
  Outdated_outdated environment inputs outputs s =
  Outdated_outdated environment inputs' outputs s.
Proof.
  intros Hlen. unfold Outdated_outdated, then_return, bind.
  rewrite (for_each_ext outputs (Outdated_body environment inputs)
                        (Outdated_body environment inputs') s);
    [reflexivity|].
  intros node s0. unfold Outdated_body, bind.
  destruct (call_exists node environment s0) as [[[|]|e] s1]; cbn;
    [|reflexivity..].
  destruct (call_timestamp node environment s1) as [[[t|]|e] s2];
    [|reflexivity..].
  apply Outdated_inner_loop_count; exact Hlen.
Qed.

(** ** Stopping at the first output that is out of date *)

(** A method that returned [False] went through its whole loop. *)
Lemma then_return_false_inv {A : Type} (xs : list A)
      (body : A -> M Environment World flow) s s1 :
  (forall x s0, fst (body x s0) <> Returned (Return false)) ->
  then_return (for_each xs body) false s = (Returned false, s1) ->
  for_each xs body s = (Returned Continue, s1).
Proof.
  intros Hbody. unfold then_return, bind.
  pose proof (for_each_never_false xs body Hbody s) as Hnf.
  destruct (for_each xs body s) as [[[|[|]]|e] s']; simpl in *; intros H.
  - injection H as ->; reflexivity.
  - discriminate H.
  - congruence.
  - discriminate H.
Qed.

(** What a loop that fell through has queried, whatever the targets
    did. *)
Lemma Nonexistent_loop_Continue_trace environment pre s s1 :
  for_each pre (Nonexistent_body environment) s = (Returned Continue, s1) ->
  trace s1 = trace s ++ map QExists pre.
Proof.
  revert s; induction pre as [|node rest IH]; intros s; cbn [for_each].
  - unfold ret. intros H; injection H as <-. simpl.
    rewrite app_nil_r; reflexivity.
  - unfold bind at 1. unfold Nonexistent_body at 1. unfold bind at 1.
    unfold call_exists at 1.
    destruct (exists_ node environment (world s)) as [[[|]|e] w1]; cbn;
      intros H; try discriminate H.
    apply IH in H. rewrite H. cbn. rewrite <- app_assoc; reflexivity.
Qed.

Lemma Outdated_inner_loop_Continue_trace environment node t inputs s s1 :
  for_each inputs (Outdated_inner environment node t) s =
  (Returned Continue, s1) ->
  trace s1 = trace s ++ map (fun _ => QTimestamp node) inputs.
Proof.
  revert s; induction inputs as [|inode rest IH]; intros s; cbn [for_each].
  - unfold ret. intros H; injection H as <-. simpl.
    rewrite app_nil_r; reflexivity.
  - unfold bind at 1. unfold Outdated_inner at 1. unfold bind at 1.
    unfold call_timestamp at 1.
    destruct (timestamp node environment (world s)) as [[[t'|]|e] w1]; cbn;
      try (intros H; discriminate H).
    destruct (t' >? t); cbn; intros H; try discriminate H.
    apply IH in H. rewrite H. cbn. rewrite <- app_assoc; reflexivity.
Qed.

(** The body of the outer loop on an output that exists and has a
    timestamp is the inner loop. *)
Lemma Outdated_body_stamped environment inputs node s w1 w2 t :
  exists_ node environment (world s) = (Returned true, w1) ->
  timestamp node environment w1 = (Returned (Some t), w2) ->
  Outdated_body environment inputs node s =
  for_each inputs (Outdated_inner environment node t)
           {| world := w2;
              trace := (trace s ++ [QExists node]) ++ [QTimestamp node] |}.
Proof.
  intros Hex Hts. unfold Outdated_body. unfold bind at 1.
  unfold call_exists. rewrite Hex. cbn. unfold bind at 1.
  unfold call_timestamp. cbn. rewrite Hts. reflexivity.
Qed.

Lemma Outdated_body_Continue_trace environment inputs node s s1 :
  Outdated_body environment inputs node s = (Returned Continue, s1) ->
  trace s1 = trace s ++ Outdated_queries inputs node.
Proof.
  destruct (exists_ node environment (world s)) as [[[|]|e] w1] eqn:Hex.
  - destruct (timestamp node environment w1) as [[[t|]|e] w2] eqn:Hts.
    + rewrite (Outdated_body_stamped _ _ _ _ _ _ _ Hex Hts). intros H.
      apply Outdated_inner_loop_Continue_trace in H. rewrite H. cbn.
      unfold Outdated_queries. rewrite <- !app_assoc. reflexivity.
    + unfold Outdated_body. unfold bind at 1. unfold call_exists.
      rewrite Hex. cbn. unfold bind at 1. unfold call_timestamp. cbn.
      rewrite Hts. intros H; discriminate H.
    + unfold Outdated_body. unfold bind at 1. unfold call_exists.
      rewrite Hex. cbn. unfold bind at 1. unfold call_timestamp. cbn.
      rewrite Hts. intros H; discriminate H.
  - unfold Outdated_body. unfold bind at 1. unfold call_exists.
    rewrite Hex. cbn. intros H; discriminate H.
  - unfold Outdated_body. unfold bind at 1. unfold call_exists.
    rewrite Hex. cbn. intros H; discriminate H.
Qed.

Lemma Outdated_loop_Continue_trace environment inputs pre s s1 :
  for_each pre (Outdated_body environment inputs) s = (Returned Continue, s1) ->
  trace s1 = trace s ++ flat_map (Outdated_queries inputs) pre.
Proof.
  revert s; induction pre as [|node rest IH]; intros s; cbn [for_each].
  - unfold ret. intros H; injection H as <-. simpl.
    rewrite app_nil_r; reflexivity.
  - unfold bind at 1.
    destruct (Outdated_body environment inputs node s) as [[[|v]|e] s'] eqn:Hb;
      cbn; intros H; try discriminate H.
    apply Outdated_body_Continue_trace in Hb. apply IH in H.
    rewrite H, Hb. cbn [flat_map]. rewrite <- app_assoc; reflexivity.
Qed.

(** A method on [pre ++ node :: post] whose loop fell through on [pre]
    and whose body returns [True] on [node] returns [True] there. *)
Lemma then_return_stops {A : Type} (pre post : list A) (x : A)
      (body : A -> M Environment World flow) s s1 s2 :
  for_each pre body s = (Returned Continue, s1) ->
  body x s1 = (Returned (Return true), s2) ->
  then_return (for_each (pre ++ x :: post) body) false s = (Returned true, s2).
Proof.
  intros Hpre Hx. unfold then_return, bind.
  rewrite for_each_app. unfold bind. rewrite Hpre.
  cbn [for_each]. unfold bind. rewrite Hx. reflexivity.
Qed.

(** C10. Both loops go through the outputs from left to right and
    stop at the first one that is out of date, whatever the targets do.
    Suppose the call on the outputs [pre] returns [False] and leaves
    state [s1].  Then the queries made so far are exactly those on
    [pre], in order.  If now [node] is found out of date in [s1], the
    call on [pre ++ node :: post] returns [True] right after the
    queries on [node]; no target of [post] is queried, so [post] may
    hold any target at all.  For [Nonexistent.outdated], [node] is out
    of date when [exists] returns [False].  For [Outdated.outdated]
    there are four ways, one per [return True] of the method: [exists]
    returns [False]; the first [timestamp] returns [None]; or, the
    first [timestamp] having returned [t] and the inner loop having
    fallen through over the inputs [before], the next reading of the
    timestamp returns [None], or a value greater than [t]. *)
Theorem outdated_stops_at_first_stale environment inputs pre node post s s1 :
  (Nonexistent_outdated environment inputs pre s = (Returned false, s1) ->
   trace s1 = trace s ++ map QExists pre /\
   (forall w',
       exists_ node environment (world s1) = (Returned false, w') ->
       Nonexistent_outdated environment inputs (pre ++ node :: post) s =
       (Returned true,
        {| world := w';
           trace := trace s ++ map QExists pre ++ [QExists node] |}))) /\
  (Outdated_outdated environment inputs pre s = (Returned false, s1) ->
   trace s1 = trace s ++ flat_map (Outdated_queries inputs) pre /\
   (forall w',
       exists_ node environment (world s1) = (Returned false, w') ->
       Outdated_outdated environment inputs (pre ++ node :: post) s =
       (Returned true,
        {| world := w';
           trace := trace s ++ flat_map (Outdated_queries inputs) pre ++
                    [QExists node] |})) /\
   (forall w1 w2,
       exists_ node environment (world s1) = (Returned true, w1) ->
       timestamp node environment w1 = (Returned None, w2) ->
       Outdated_outdated environment inputs (pre ++ node :: post) s =
       (Returned true,
        {| world := w2;
           trace := trace s ++ flat_map (Outdated_queries inputs) pre ++
                    [QExists node; QTimestamp node] |})) /\
   (forall w1 w2 t before inode after s3 r w4,
       inputs = before ++ inode :: after ->
       exists_ node environment (world s1) = (Returned true, w1) ->
       timestamp node environment w1 = (Returned (Some t), w2) ->
       Outdated_outdated environment before [node] s1 = (Returned false, s3) ->
       timestamp node environment (world s3) = (Returned r, w4) ->
       (r = None \/ exists t', r = Some t' /\ t' > t) ->
       Outdated_outdated environment inputs (pre ++ node :: post) s =
       (Returned true,
        {| world := w4;
           trace := trace s ++ flat_map (Outdated_queries inputs) pre ++
                    Outdated_queries before node ++ [QTimestamp node] |}))).
Proof.
  split.
  - intros HN.
    apply then_return_false_inv in HN;
      [|intros x s0; apply Nonexistent_body_never_false].
    pose proof (Nonexistent_loop_Continue_trace _ _ _ _ HN) as Htr.
    split; [exact Htr|]. intros w' Hex.
    apply (then_return_stops _ _ _ _ _ _ _ HN).
    unfold Nonexistent_body, bind, call_exists. rewrite Hex. cbn.
    rewrite Htr, <- app_assoc. reflexivity.
  - intros HO.
    apply then_return_false_inv in HO;
      [|intros x s0; apply Outdated_body_never_false].
    pose proof (Outdated_loop_Continue_trace _ _ _ _ _ HO) as Htr.
    split; [exact Htr|]. split; [|split].
    + intros w' Hex.
      apply (then_return_stops _ _ _ _ _ _ _ HO).
      unfold Outdated_body. unfold bind at 1. unfold call_exists.
      rewrite Hex. cbn. rewrite Htr, <- app_assoc. reflexivity.
    + intros w1 w2 Hex Hts.
      apply (then_return_stops _ _ _ _ _ _ _ HO).
      unfold Outdated_body. unfold bind at 1. unfold call_exists.
      rewrite Hex. cbn. unfold bind at 1. unfold call_timestamp. cbn.
      rewrite Hts. cbn. rewrite Htr, <- !app_assoc. reflexivity.
    + intros w1 w2 t before inode after s3 r w4 Hin Hex Hts Hbefore Hr Hcmp.
      apply (then_return_stops _ _ _ _ _ _ _ HO).
      apply then_return_false_inv in Hbefore;
        [|intros x s0; apply Outdated_body_never_false].
      cbn [for_each] in Hbefore. unfold bind at 1 in Hbefore.
      rewrite (Outdated_body_stamped _ before _ _ _ _ _ Hex Hts) in Hbefore.
      destruct (for_each before (Outdated_inner environment node t) _)
        as [[[|v]|e] s3'] eqn:Hloop; cbn in Hbefore; try discriminate Hbefore.
      injection Hbefore as ->.
      pose proof (Outdated_inner_loop_Continue_trace _ _ _ _ _ _ Hloop) as Htr3.
      cbn [trace] in Htr3.
      rewrite (Outdated_body_stamped _ inputs _ _ _ _ _ Hex Hts). subst inputs.
      rewrite for_each_app. unfold bind. rewrite Hloop.
      cbn [for_each]. unfold bind at 1. unfold Outdated_inner at 1.
      unfold bind at 1. unfold call_timestamp at 1. rewrite Hr.
      assert (Htrace : trace s3 ++ [QTimestamp node] =
                       trace s ++
                       flat_map (Outdated_queries (before ++ inode :: after))
                                pre ++
                       Outdated_queries before node ++ [QTimestamp node]).
      { rewrite Htr3, Htr. unfold Outdated_queries at 2.
        cbn. rewrite <- !app_assoc. reflexivity. }
      destruct Hcmp as [->|[t' [-> Hgt]]].
      * cbn. rewrite Htrace. reflexivity.
      * replace (t' >? t) with true
          by (symmetry; apply Z.gtb_lt; apply Z.gt_lt; exact Hgt).
        cbn. rewrite Htrace. reflexivity.
Qed.

End Properties.

(** * Scenarios *)

Lemma file_pure (b : bool) (mtime : option Z) : pure_target tt tt (file b mtime).
Proof. split; eexists; reflexivity. Qed.

Lemma file_exists_pure (b : bool) (mtime : option Z) :
  exists_pure tt tt (file b mtime).
Proof. eexists; reflexivity. Qed.

(** An output stamped 100 and an input stamped 50: up to date. *)
Example scenario_older_input :
  fst (Outdated_outdated tt [input_50] [output_100] start) = Returned false.
Proof. reflexivity. Qed.

(** A missing output and no input: out of date for both criteria. *)
Example scenario_missing_output :
  fst (Nonexistent_outdated tt [] [missing_output] start) = Returned true /\
  fst (Outdated_outdated tt [] [missing_output] start) = Returned true.
Proof. split; reflexivity. Qed.

(** Equal timestamps: up to date. *)
Example scenario_equal_stamps :
  fst (Outdated_outdated tt [input_100] [output_100] start) = Returned false.
Proof. reflexivity. Qed.

(** An output without a timestamp and no input: out of date. *)
Example scenario_output_no_stamp :
  fst (Outdated_outdated tt [] [output_no_stamp] start) = Returned true.
Proof. reflexivity. Qed.

(** A query that raises is not caught: the exception leaves
    [outdated]. *)
Example scenario_unreachable_output :
  fst (Outdated_outdated tt [] [unreachable] start) =
  Raised "lookup failure"%string /\
  fst (Nonexistent_outdated tt [] [output_100; unreachable] start) =
  Raised "lookup failure"%string.
Proof. split; reflexivity. Qed.

(** Purity of the outputs matters to C3: over an output whose
    timestamp moves at every reading, the second reading of the inner
    loop is newer than the first, and the result depends on whether
    there is an input at all. *)
Example scenario_ticking_output :
  Outdated_outdated tt [] [ticking] {| world := 0; trace := [] |} =
  (Returned false,
   {| world := 1; trace := [QExists ticking; QTimestamp ticking] |}) /\
  Outdated_outdated tt [ticking] [ticking] {| world := 0; trace := [] |} =
  (Returned true,
   {| world := 2;
      trace := [QExists ticking; QTimestamp ticking; QTimestamp ticking] |}).
Proof. split; reflexivity. Qed.

(** C1, on the code.  The output exists with timestamp 100 and the
    input exists with timestamp 150, so an input is newer than an
    output; [Outdated.outdated] queries the output three times, never
    the input, and returns [False]. *)
Theorem Outdated_newer_input_false :
  (stamp tt tt input_150 = Some 150 /\ stamp tt tt output_100 = Some 100 /\
   150 > 100) /\
  Outdated_outdated tt [input_150] [output_100] start =
  (Returned false,
   {| world := tt;
      trace := [QExists output_100; QTimestamp output_100;
                QTimestamp output_100] |}).
Proof. repeat split. Qed.

(** C2, on the code.  The output exists with timestamp 100 and the
    only input has no timestamp; [Outdated.outdated] queries the output
    three times, never the input, and returns [False]: the test
    [input_timestamp is None] of the inner loop is made on the
    timestamp of the output. *)
Theorem Outdated_absent_input_false :
  (In input_no_stamp [input_no_stamp] /\ stamp tt tt input_no_stamp = None) /\
  Outdated_outdated tt [input_no_stamp] [output_100] start =
  (Returned false,
   {| world := tt;
      trace := [QExists output_100; QTimestamp output_100;
                QTimestamp output_100] |}).
Proof.
  split; [split; [left|]; reflexivity | reflexivity].
Qed.

(** With no outputs there is nothing to be out of date: an input
    without a timestamp changes nothing to that. *)
Lemma Outdated_absent_input_no_outputs :
  (exists inode, In inode [input_no_stamp] /\ stamp tt tt inode = None) /\
  Outdated_outdated tt [input_no_stamp] [] start = (Returned false, start) /\
  fst (Outdated_outdated tt [input_no_stamp] [] start) <> Returned true.
Proof.
  split; [|split].
  - exists input_no_stamp. split; [left|]; reflexivity.
  - reflexivity.
  - discriminate.
Qed.

Lemma Outdated_unknown_output_witness :
  Forall (pure_target tt tt) [output_100; output_no_stamp] /\
  (exists node, In node [output_100; output_no_stamp] /\
                (present tt tt node = false \/ stamp tt tt node = None)) /\
  fst (Outdated_outdated tt [input_50] [output_100; output_no_stamp] start) =
  Returned true /\
  Outdated_outdated tt [input_50] [] start = (Returned false, start).
Proof.
  assert (Hp : Forall (pure_target tt tt) [output_100; output_no_stamp])
    by (repeat constructor; apply file_pure).
  assert (Hu : exists node, In node [output_100; output_no_stamp] /\
                 (present tt tt node = false \/ stamp tt tt node = None)).
  { exists output_no_stamp. split; [right; left; reflexivity|].
    right; reflexivity. }
  split; [exact Hp|]. split; [exact Hu|].
  exact (Outdated_unknown_output unit unit tt [input_50]
           [output_100; output_no_stamp] start Hp Hu).
Defined.

Lemma Outdated_reads_outputs_only_witness :
  Forall (pure_target tt tt) [output_100; missing_output] /\
  fst (Outdated_outdated tt [input_150] [output_100; missing_output] start) =
  Returned (some_output_unknown tt tt [output_100; missing_output]) /\
  (forall inputs',
      fst (Outdated_outdated tt inputs' [output_100; missing_output] start) =
      fst (Outdated_outdated tt [input_150] [output_100; missing_output]
                             start)).
Proof.
  assert (Hp : Forall (pure_target tt tt) [output_100; missing_output])
    by (repeat constructor; apply file_pure).
  split; [exact Hp|].
  exact (Outdated_reads_outputs_only unit unit tt [input_150]
           [output_100; missing_output] start Hp).
Defined.

Lemma Nonexistent_outdated_iff_missing_witness :
  Forall (exists_pure tt tt) [output_100; missing_output] /\
  (exists v,
      fst (Nonexistent_outdated tt [input_150] [output_100; missing_output]
                                start) = Returned v /\
      (v = true <->
       exists node, In node [output_100; missing_output] /\
                    present tt tt node = false)) /\
  (forall inputs' outputs',
      Forall2 (fun a b => forall e v, exists_ a e v = exists_ b e v)
              [output_100; missing_output] outputs' ->
      fst (Nonexistent_outdated tt inputs' outputs' start) =
      fst (Nonexistent_outdated tt [input_150] [output_100; missing_output]
                                start)).
Proof.
  assert (Hp : Forall (exists_pure tt tt) [output_100; missing_output])
    by (repeat constructor; apply file_exists_pure).
  split; [exact Hp|].
  exact (Nonexistent_outdated_iff_missing unit unit tt [input_150]
           [output_100; missing_output] start Hp).
Defined.

Lemma Outdated_no_inputs_witness :
  Forall (pure_target tt tt) [output_100; output_no_stamp] /\
  exists v,
    fst (Outdated_outdated tt [] [output_100; output_no_stamp] start) =
    Returned v /\
    (v = true <->
     exists node, In node [output_100; output_no_stamp] /\
                  (present tt tt node = false \/ stamp tt tt node = None)).
Proof.
  assert (Hp : Forall (pure_target tt tt) [output_100; output_no_stamp])
    by (repeat constructor; apply file_pure).
  split; [exact Hp|].
  exact (Outdated_no_inputs unit unit tt [output_100; output_no_stamp]
           start Hp).
Defined.

Lemma outdated_deterministic_witness :
  Forall (read_only tt tt) [output_100; missing_output] /\
  fst (outdated Outdated tt [input_150] [output_100; missing_output]
         (snd (outdated Outdated tt [input_150]
                        [output_100; missing_output] start))) =
  fst (outdated Outdated tt [input_150] [output_100; missing_output] start) /\
  world (snd (outdated Outdated tt [input_150] [output_100; missing_output]
                       start)) = tt /\
  world (snd (outdated Outdated tt [input_150] [output_100; missing_output]
                (snd (outdated Outdated tt [input_150]
                               [output_100; missing_output] start)))) = tt.
Proof.
  assert (Hr : Forall (read_only tt tt) [output_100; missing_output])
    by (repeat constructor).
  split; [exact Hr|].
  exact (outdated_deterministic unit unit Outdated tt [input_150]
           [output_100; missing_output] start Hr).
Defined.

Lemma outdated_short_circuit_witness :
  Nonexistent_outdated tt [input_150]
                       ([output_100] ++ missing_output :: [unreachable])
                       start =
  (Returned true,
   {| world := tt; trace := [QExists output_100; QExists missing_output] |}) /\
  Outdated_outdated tt [input_150]
                    ([output_100] ++ missing_output :: [unreachable]) start =
  (Returned true,
   {| world := tt;
      trace := [QExists output_100; QTimestamp output_100;
                QTimestamp output_100; QExists missing_output] |}).
Proof.
  assert (Hpre : Forall (pure_target tt tt) [output_100])
    by (repeat constructor; apply file_pure).
  destruct (outdated_short_circuit unit unit tt [input_150] [output_100]
              missing_output [unreachable] start Hpre
              (file_pure false None)) as [HN HO].
  split.
  - apply HN; [repeat constructor | reflexivity].
  - apply HO; [repeat constructor | reflexivity].
Defined.

(** * [__repr__] *)

(** X10. The representation tells the criteria apart: two criteria
    with the same [repr] are of the same class. *)
Theorem repr_injective (a b : Criteria) : repr a = repr b -> a = b.
Proof. destruct a, b; simpl; intros H; try reflexivity; discriminate H. Qed.

(** * Further scenarios *)

Lemma outdated_exists_raises_witness :
  Nonexistent_outdated tt [input_150]
                       ([output_100] ++ unreachable :: [missing_output])
                       start =
  (Raised "lookup failure"%string,
   {| world := tt; trace := [QExists output_100; QExists unreachable] |}) /\
  Outdated_outdated tt [input_150]
                    ([output_100] ++ unreachable :: [missing_output]) start =
  (Raised "lookup failure"%string,
   {| world := tt;
      trace := [QExists output_100; QTimestamp output_100;
                QTimestamp output_100; QExists unreachable] |}).
Proof.
  assert (Hpre : Forall (pure_target tt tt) [output_100])
    by (repeat constructor; apply file_pure).
  destruct (outdated_exists_raises unit unit tt [input_150] [output_100]
              unreachable [missing_output] start "lookup failure"%string tt
              Hpre eq_refl) as [HN HO].
  split.
  - apply HN. repeat constructor.
  - apply HO. repeat constructor.
Defined.

Lemma Outdated_timestamp_raises_witness :
  Outdated_outdated tt [input_150]
                    ([output_100] ++ stamp_unreachable :: [missing_output])
                    start =
  (Raised "lookup failure"%string,
   {| world := tt;
      trace := [QExists output_100; QTimestamp output_100;
                QTimestamp output_100; QExists stamp_unreachable;
                QTimestamp stamp_unreachable] |}) /\
  Nonexistent_outdated tt [input_150] ([output_100] ++ [stamp_unreachable])
                       start =
  (Returned false,
   {| world := tt;
      trace := [QExists output_100; QExists stamp_unreachable] |}).
Proof.
  assert (Hpre : Forall (pure_target tt tt) [output_100])
    by (repeat constructor; apply file_pure).
  assert (Hk : Forall (fun n => unknown tt tt n = false) [output_100])
    by (repeat constructor).
  exact (Outdated_timestamp_raises unit unit tt [input_150] [output_100]
           stamp_unreachable [missing_output] start "lookup failure"%string
           tt Hpre Hk eq_refl eq_refl).
Defined.

Lemma Nonexistent_implies_Outdated_witness :
  Forall (pure_target tt tt) [output_100; missing_output] /\
  fst (Nonexistent_outdated tt [input_50] [output_100; missing_output] start) =
  Returned true /\
  fst (Outdated_outdated tt [input_50] [output_100; missing_output] start) =
  Returned true.
Proof.
  assert (Hp : Forall (pure_target tt tt) [output_100; missing_output])
    by (repeat constructor; apply file_pure).
  split; [exact Hp|]. split; [reflexivity|].
  exact (Nonexistent_implies_Outdated unit unit tt [input_50]
           [output_100; missing_output] start Hp eq_refl).
Defined.

Lemma Outdated_is_Nonexistent_witness :
  Forall (pure_target tt tt) [output_100; missing_output] /\
  fst (Outdated_outdated tt [input_150] [output_100; missing_output] start) =
  fst (Nonexistent_outdated tt [input_150] [output_100; missing_output] start).
Proof.
  assert (Hp : Forall (pure_target tt tt) [output_100; missing_output])
    by (repeat constructor; apply file_pure).
  split; [exact Hp|].
  apply (Outdated_is_Nonexistent unit unit tt [input_150]
           [output_100; missing_output] start Hp).
  intros node [<-|[<-|[]]]; simpl; [intros _ H | intros H]; discriminate H.
Defined.

Lemma outdated_Permutation_witness :
  Forall (pure_target tt tt) [output_100; missing_output] /\
  Permutation [output_100; missing_output] [missing_output; output_100] /\
  fst (outdated Outdated tt [input_50] [missing_output; output_100] start) =
  fst (outdated Outdated tt [input_50] [output_100; missing_output] start).
Proof.
  assert (Hp : Forall (pure_target tt tt) [output_100; missing_output])
    by (repeat constructor; apply file_pure).
  assert (Hperm : Permutation [output_100; missing_output]
                              [missing_output; output_100])
    by apply perm_swap.
  split; [exact Hp|]. split; [exact Hperm|].
  exact (outdated_Permutation unit unit Outdated tt [input_50]
           [output_100; missing_output] [missing_output; output_100] start
           Hp Hperm).
Defined.

Lemma Outdated_up_to_date_cost_witness :
  Outdated_outdated tt [input_50; input_100] [output_100; output_100] start =
  (Returned false,
   {| world := tt;
      trace := [QExists output_100; QTimestamp output_100;
                QTimestamp output_100; QTimestamp output_100;
                QExists output_100; QTimestamp output_100;
                QTimestamp output_100; QTimestamp output_100] |}) /\
  List.length
    (trace (snd (Outdated_outdated tt [input_50; input_100]
                                   [output_100; output_100] start))) = 8%nat.
Proof.
  assert (Hp : Forall (pure_target tt tt) [output_100; output_100])
    by (repeat constructor; apply file_pure).
  assert (Hk : Forall (fun n => unknown tt tt n = false)
                      [output_100; output_100])
    by (repeat constructor).
  exact (Outdated_up_to_date_cost unit unit tt [input_50; input_100]
           [output_100; output_100] start Hp Hk).
Defined.

Lemma Outdated_inputs_count_witness :
  Outdated_outdated tt [input_50] [output_100] start =
  Outdated_outdated tt [input_no_stamp] [output_100] start.
Proof.
  exact (Outdated_inputs_count unit unit tt [input_50] [input_no_stamp]
           [output_100] start eq_refl).
Defined.

Lemma repr_injective_witness :
  repr Outdated = repr Outdated /\ Outdated = Outdated.
Proof.
  split; [reflexivity|]. exact (repr_injective Outdated Outdated eq_refl).
Defined.

(** The inner loop stops the method too: the timestamp of [ticking]
    moves between the two readings, the second is the greater, and the
    output that follows is never queried. *)
Lemma outdated_stops_at_first_stale_witness :
  Outdated_outdated tt [ticking] ([] ++ ticking :: [unreachable_later])
                    {| world := 0; trace := [] |} =
  (Returned true,
   {| world := 2;
      trace := [QExists ticking; QTimestamp ticking; QTimestamp ticking] |}) /\
  Nonexistent_outdated tt [input_150]
                       ([output_100] ++ missing_output :: [unreachable])
                       start =
  (Returned true,
   {| world := tt; trace := [QExists output_100; QExists missing_output] |}).
Proof.
  split.
  - destruct (outdated_stops_at_first_stale unit Z tt [ticking] [] ticking
                [unreachable_later] {| world := 0; trace := [] |}
                {| world := 0; trace := [] |}) as [_ HO].
    destruct (HO eq_refl) as [_ [_ [_ Hinner]]].
    exact (Hinner 0 1 0 [] ticking []
             {| world := 1; trace := [QExists ticking; QTimestamp ticking] |}
             (Some 1) 2 eq_refl eq_refl eq_refl eq_refl eq_refl
             (or_intror (ex_intro _ 1 (conj eq_refl eq_refl)))).
  - destruct (outdated_stops_at_first_stale unit unit tt [input_150]
                [output_100] missing_output [unreachable] start
                {| world := tt; trace := [QExists output_100] |}) as [HN _].
    destruct (HN eq_refl) as [_ Hstop].
    exact (Hstop tt eq_refl).
Defined.
